(** * build.py: the fetch/build wrapper of webrtc-android

    A shallow embedding of [build.py].  The script sequences external
    commands, tees a log to a file and to standard output, and stops at the
    first command that fails.  The process state it touches (environment,
    standard output, the files on disk, the buffer of the open log file) is
    threaded explicitly through a state-and-exception monad; external
    programs are an oracle over an abstract outside world. *)

From Stdlib Require Import String Ascii ZArith List Bool Lia.
From stdpp Require Import base option gmap strings list.

Local Open Scope Z_scope.

(** ** Text

    A Python [str] is modelled by the bytes of its UTF-8 encoding, so that
    [str.encode()] is the identity and a file holds a [string]. *)

Definition nl : string := String "010"%char EmptyString.
Definition dq : string := String "034"%char EmptyString.

(** [sep.join(parts)] *)
Definition join (sep : string) (parts : list string) : string :=
  String.concat sep parts.

Fixpoint ends_with_slash (s : string) : bool :=
  match s with
  | EmptyString => false
  | String c EmptyString => Ascii.eqb c "/"%char
  | String _ rest => ends_with_slash rest
  end.

(** [os.path.join(a, b)] of posixpath, for two components. *)
Definition os_path_join (a b : string) : string :=
  if String.prefix "/" b then b
  else if String.eqb a "" || ends_with_slash a then a +:+ b
  else a +:+ "/" +:+ b.




(** ** External programs *)

(** One call of [subprocess.run]: argument list, working directory and the
    environment handed to the child. *)
Record Invocation := {
  inv_args : list string;
  inv_cwd : option string;
  inv_env : gmap string string
}.

(** What became of a child: it ran, wrote [output] (stdout and stderr, in one
    stream) and exited with [returncode]; or it could not be started. *)
Inductive Completion :=
| Exited (output : string) (returncode : Z)
| NotStarted (errno : Z).

Inductive exn :=
| CalledProcessError (returncode : Z) (cmd : list string)
| OSError (errno : Z)
| SystemExit (code : Z).

Inductive result (A : Type) :=
| Returned (a : A)
| Raised (e : exn).
Arguments Returned {A} a.
Arguments Raised {A} e.

(** What [subprocess.run(..., check=True)] raises for a completion. *)
Definition raised_by (args : list string) (c : Completion) : option exn :=
  match c with
  | Exited _ rc => if Z.eqb rc 0 then None else Some (CalledProcessError rc args)
  | NotStarted errno => Some (OSError errno)
  end.

Definition child_output (c : Completion) : string :=
  match c with
  | Exited out _ => out
  | NotStarted _ => ""
  end.

(** The content of a file in a table of files (empty when absent). *)
Definition content (m : gmap string string) (p : string) : string :=
  default "" (m !! p).

(** ** Options

    The [argparse.Namespace] that [parse_args] returns.  The attributes of
    both subcommands are kept in one record; an action reads only its own. *)
Inductive Action := Fetch | Build.

Record Options := {
  dir : string;
  logfile : option string;
  func : Action;
  revision : option string;
  history : bool;
  official : bool;
  unstripped : bool
}.

Section Script.

(** The outside world of the external tools and the way a child process
    behaves in it. *)
Context {X : Type}.
Variable spawn : Invocation -> X -> Completion * X.

(** ** Process state *)
Record World := {
  environ : gmap string string;   (* os.environ *)
  getcwd : string;                (* os.getcwd() *)
  rand : string;                  (* the characters tempfile draws *)
  stdout : string;                (* what was printed *)
  disk : gmap string string;      (* files by name *)
  buffers : gmap string string;   (* pending writes of the open files *)
  spawned : list (Invocation * Completion);  (* children run so far *)
  outside : X
}.

Definition M (A : Type) : Type := World -> result A * World.

Definition ret {A} (a : A) : M A := fun w => (Returned a, w).

Definition raise {A} (e : exn) : M A := fun w => (Raised e, w).

Definition bind {A B} (m : M A) (k : A -> M B) : M B :=
  fun w =>
    match m w with
    | (Returned a, w') => k a w'
    | (Raised e, w') => (Raised e, w')
    end.

(** [try: body / except: handler] with a bare [except]. *)
Definition try_except {A} (body : M A) (handler : exn -> M A) : M A :=
  fun w =>
    match body w with
    | (Returned a, w') => (Returned a, w')
    | (Raised e, w') => handler e w'
    end.

Notation "x <- c1 ;; c2" := (bind c1 (fun x => c2))
  (at level 100, c1 at next level, right associativity).
Notation "c1 ;; c2" := (bind c1 (fun _ => c2))
  (at level 100, right associativity).

Definition with_stdout (s : string) (w : World) : World :=
  {| environ := environ w; getcwd := getcwd w; rand := rand w; stdout := s;
     disk := disk w; buffers := buffers w; spawned := spawned w;
     outside := outside w |}.

Definition with_files (d b : gmap string string) (w : World) : World :=
  {| environ := environ w; getcwd := getcwd w; rand := rand w;
     stdout := stdout w; disk := d; buffers := b; spawned := spawned w;
     outside := outside w |}.

Definition with_environ (e : gmap string string) (w : World) : World :=
  {| environ := e; getcwd := getcwd w; rand := rand w; stdout := stdout w;
     disk := disk w; buffers := buffers w; spawned := spawned w;
     outside := outside w |}.

(** ** The primitives of the Python runtime the script calls *)

(** An open binary file object; [name] is its [.name] attribute. *)
Record FileObj := { name : string }.

(** [print(message)] *)
Definition print (message : string) : M unit :=
  fun w => (Returned tt, with_stdout (stdout w +:+ message +:+ nl) w).

(** [f.write(data)]: the bytes go to the object's buffer. *)
Definition file_write (f : FileObj) (data : string) : M unit :=
  fun w =>
    (Returned tt,
     with_files (disk w)
       (<[name f := content (buffers w) (name f) +:+ data]> (buffers w)) w).

(** [f.flush()]: the buffer goes to the file, after what it holds. *)
Definition file_flush (f : FileObj) : M unit :=
  fun w =>
    (Returned tt,
     with_files
       (<[name f := content (disk w) (name f)
                    +:+ content (buffers w) (name f)]> (disk w))
       (<[name f := ""]> (buffers w)) w).

(** [open(path, mode='w+b')]: the file is created, or cut to length zero. *)
Definition open_wb (path : string) : M FileObj :=
  fun w =>
    (Returned {| name := path |},
     with_files (<[path := ""]> (disk w)) (<[path := ""]> (buffers w)) w).

(** [tempfile.NamedTemporaryFile(delete=False, prefix=.., suffix=.., dir='.')]:
    a new empty file in the current directory, named with the characters
    drawn. *)
Definition NamedTemporaryFile (prefix suffix : string) : M FileObj :=
  fun w =>
    let path := os_path_join (getcwd w) (prefix +:+ rand w +:+ suffix) in
    (Returned {| name := path |},
     with_files (<[path := ""]> (disk w)) (<[path := ""]> (buffers w)) w).

(** [os.getcwd()] *)
Definition os_getcwd : M string := fun w => (Returned (getcwd w), w).

(** [os.environ.copy()] *)
Definition environ_copy : M (gmap string string) :=
  fun w => (Returned (environ w), w).

(** [dict.setdefault(key, value)] on a mapping. *)
Definition setdefault (key value : string) (e : gmap string string)
  : gmap string string :=
  match e !! key with
  | Some _ => e
  | None => <[key := value]> e
  end.

(** [os.environ.setdefault(key, value)] *)
Definition environ_setdefault (key value : string) : M unit :=
  fun w => (Returned tt, with_environ (setdefault key value (environ w)) w).

(** [subprocess.run(args, cwd=cwd, env=env, check=True,
    stderr=subprocess.STDOUT, stdout=out)]: the child writes straight to the
    file behind [out], past what is already there. *)
Definition subprocess_run (args : list string) (cwd : option string)
    (env : gmap string string) (out : FileObj) : M unit :=
  fun w =>
    let i := {| inv_args := args; inv_cwd := cwd; inv_env := env |} in
    let '(c, x') := spawn i (outside w) in
    let w' :=
      {| environ := environ w; getcwd := getcwd w; rand := rand w;
         stdout := stdout w;
         disk := <[name out := content (disk w) (name out)
                               +:+ child_output c]> (disk w);
         buffers := buffers w;
         spawned := spawned w ++ [(i, c)];
         outside := x' |} in
    match raised_by args c with
    | None => (Returned tt, w')
    | Some e => (Raised e, w')
    end.

(** ** The script *)

Definition log (message : string) (logfile : FileObj) : M unit :=
  print message ;;
  file_write logfile (message +:+ nl).

(** The line that announces the log file. *)
Definition announcement (file_name : string) : string :=
  "Writing to log file '" +:+ file_name +:+ "'".

Definition create_logfile (path : option string) : M FileObj :=
  logfile <- match path with
             | None => NamedTemporaryFile "build_" ".log"
             | Some p => open_wb p
             end ;;
  log (announcement (name logfile)) logfile ;;
  ret logfile.

(** The line that announces a command. *)
Definition description (args : list string) (shown : string) : string :=
  "Running '" +:+ join " " args +:+ "' in '" +:+ shown +:+ "'".

Definition failure_marker : string := "Command failed.".

Definition run_command (args : list string) (logfile : FileObj)
    (cwd : option string) : M unit :=
  shown <- match cwd with
           | Some d => ret d
           | None => os_getcwd
           end ;;
  log (description args shown) logfile ;;
  file_flush logfile ;;
  try_except
    (env <- environ_copy ;;
     subprocess_run args cwd env logfile)
    (fun e => log failure_marker logfile ;; raise e).

Definition ROOT : string := "src".

Definition quoted (s : string) : string := dq +:+ s +:+ dq.

Definition GCLIENT_SPEC : string :=
  "solutions = [" +:+ nl +:+
  "  {" +:+ nl +:+
  "    " +:+ quoted "name" +:+ ": " +:+ quoted "src" +:+ "," +:+ nl +:+
  "    " +:+ quoted "url" +:+ ": "
         +:+ quoted "https://webrtc.googlesource.com/src.git" +:+ "," +:+ nl +:+
  "    " +:+ quoted "deps_file" +:+ ": " +:+ quoted "DEPS" +:+ "," +:+ nl +:+
  "    " +:+ quoted "managed" +:+ ": False," +:+ nl +:+
  "    " +:+ quoted "custom_deps" +:+ ": {}," +:+ nl +:+
  "  }," +:+ nl +:+
  "]" +:+ nl +:+
  "target_os = [" +:+ quoted "android" +:+ ", " +:+ quoted "unix" +:+ "]"
  +:+ nl.

(** The argument list of the [gclient sync] call. *)
Definition sync_args (opts : Options) : list string :=
  let sync_opts := [] in
  let sync_opts :=
    if negb (history opts) then sync_opts ++ ["--no-history"] else sync_opts in
  let sync_opts :=
    match revision opts with
    | Some r => sync_opts ++ ["--revision"; ROOT +:+ "@" +:+ r]
    | None => sync_opts
    end in
  ["gclient"; "sync"; "--delete_unversioned_trees"; "--nohooks"] ++ sync_opts.

Definition run_fetch (opts : Options) (logfile : FileObj) : M unit :=
  run_command ["gclient"; "root"] logfile (Some (dir opts)) ;;
  run_command ["gclient"; "config"; "--spec"; GCLIENT_SPEC] logfile
    (Some (dir opts)) ;;
  run_command (sync_args opts) logfile (Some (dir opts)) ;;
  let source_dir := os_path_join (dir opts) ROOT in
  run_command ["git"; "config"; "diff.ignoreSubmodules"; "dirty"] logfile
    (Some source_dir) ;;
  environ_setdefault "DEBIAN_FRONTEND" "noninteractive" ;;
  environ_setdefault "DEBIAN_PRIORITY" "critical" ;;
  environ_setdefault "DEBCONF_NONINTERACTIVE_SEEN" "true" ;;
  environ_setdefault "APT_LISTCHANGES_FRONTEND" "none" ;;
  environ_setdefault "TZ" "Etc/UTC" ;;
  environ_setdefault "LANG" "C.UTF-8" ;;
  environ_setdefault "LC_ALL" "C.UTF-8" ;;
  environ_setdefault "LANGUAGE" "C.UTF-8" ;;
  run_command ["./build/install-build-deps.sh"] logfile (Some source_dir) ;;
  run_command ["gclient"; "runhooks"] logfile (Some (dir opts)).

(** The argument list of the build script's call. *)
Definition build_args (opts : Options) : list string :=
  let build_opts := [] in
  let build_opts :=
    if official opts
    then build_opts ++ ["--extra-gn-args=is_official_build=true"]
    else build_opts in
  let build_opts :=
    if unstripped opts then build_opts ++ ["--use-unstripped-libs"]
    else build_opts in
  ["./tools_webrtc/android/build_aar.py"] ++ build_opts.

Definition run_build (opts : Options) (logfile : FileObj) : M unit :=
  let source_dir := os_path_join (dir opts) ROOT in
  run_command (build_args opts) logfile (Some source_dir).

(** ** Command line

    [parse_args] declares an [argparse] parser; what is modelled of argparse
    is the reading of command lines whose options are spelled in full, each
    value in an argument of its own that does not start with a dash.  For
    every other command line (abbreviated options, [--opt=value], [-h], a
    usage error) argparse either leaves the process itself or is not covered
    here: the model yields no namespace, and the status the process then
    leaves with is [argparse_exit], about which nothing is assumed. *)

(** [str(pathlib.Path(s))]: the text of the path object made from [s]. *)
Variable Path : string -> string.
Variable argparse_exit : list string -> Z.

Definition is_value (s : string) : bool := negb (String.prefix "-" s).

Definition set_history (b : bool) (ns : Options) : Options :=
  {| dir := dir ns; logfile := logfile ns; func := func ns;
     revision := revision ns; history := b; official := official ns;
     unstripped := unstripped ns |}.

Definition set_revision (r : string) (ns : Options) : Options :=
  {| dir := dir ns; logfile := logfile ns; func := func ns;
     revision := Some r; history := history ns; official := official ns;
     unstripped := unstripped ns |}.

Definition set_official (b : bool) (ns : Options) : Options :=
  {| dir := dir ns; logfile := logfile ns; func := func ns;
     revision := revision ns; history := history ns; official := b;
     unstripped := unstripped ns |}.

Definition set_unstripped (b : bool) (ns : Options) : Options :=
  {| dir := dir ns; logfile := logfile ns; func := func ns;
     revision := revision ns; history := history ns; official := official ns;
     unstripped := b |}.

(** The arguments of [fetch_parser]: [--revision] stores its value,
    [--history] is a [BooleanOptionalAction]. *)
Fixpoint parse_fetch (argv : list string) (ns : Options) : option Options :=
  match argv with
  | [] => Some ns
  | a :: rest =>
      if String.eqb a "--history" then parse_fetch rest (set_history true ns)
      else if String.eqb a "--no-history"
      then parse_fetch rest (set_history false ns)
      else if String.eqb a "--revision" then
        match rest with
        | v :: rest' =>
            if is_value v then parse_fetch rest' (set_revision v ns) else None
        | [] => None
        end
      else None
  end.

(** The arguments of [build_parser]: two [BooleanOptionalAction]s. *)
Fixpoint parse_build (argv : list string) (ns : Options) : option Options :=
  match argv with
  | [] => Some ns
  | a :: rest =>
      if String.eqb a "--official" then parse_build rest (set_official true ns)
      else if String.eqb a "--no-official"
      then parse_build rest (set_official false ns)
      else if String.eqb a "--unstripped"
      then parse_build rest (set_unstripped true ns)
      else if String.eqb a "--no-unstripped"
      then parse_build rest (set_unstripped false ns)
      else None
  end.

(** The namespace a subparser starts from: the global options read so far and
    the defaults of every argument ([set_defaults(func=...)] included).  The
    attributes of the other subcommand do not exist in Python; here they hold
    that subcommand's defaults and are never read. *)
Definition namespace (d : string) (lf : option string) (f : Action) : Options :=
  {| dir := d; logfile := lf; func := f; revision := None; history := false;
     official := true; unstripped := false |}.

(** The top-level parser: [--dir], [--logfile], then the required
    subcommand, which takes the rest of the line. *)
Fixpoint parse_top (argv : list string) (d : string) (lf : option string)
  : option Options :=
  match argv with
  | [] => None
  | a :: rest =>
      if String.eqb a "fetch" then parse_fetch rest (namespace d lf Fetch)
      else if String.eqb a "build" then parse_build rest (namespace d lf Build)
      else if String.eqb a "--dir" then
        match rest with
        | v :: rest' => if is_value v then parse_top rest' (Path v) lf else None
        | [] => None
        end
      else if String.eqb a "--logfile" then
        match rest with
        | v :: rest' =>
            if is_value v then parse_top rest' d (Some (Path v)) else None
        | [] => None
        end
      else None
  end.

Definition parse_args (argv : list string) : M Options :=
  here <- os_getcwd ;;
  match parse_top (tail argv) (Path here) None with
  | Some ns => ret ns
  | None => raise (SystemExit (argparse_exit argv))
  end.

Definition main (argv : list string) : M unit :=
  args <- parse_args argv ;;
  logfile <- create_logfile (logfile args) ;;
  match func args with
  | Fetch => run_fetch args logfile
  | Build => run_build args logfile
  end.

(** The status the interpreter leaves with: [sys.exit(None)] after a normal
    return, the code of a [SystemExit], 1 for any other uncaught exception. *)
Definition exit_status (r : result unit) : Z :=
  match r with
  | Returned _ => 0
  | Raised (SystemExit code) => code
  | Raised _ => 1
  end.

(** Leaving the interpreter flushes the file objects still open. *)
Definition finalize (w : World) : World :=
  with_files (union_with (fun d b => Some (d +:+ b)) (disk w) (buffers w)) ∅ w.

(** *** Actions as step lists

    For the proofs, an action is also written as the list of its steps; the
    lemmas [run_fetch_steps] and [run_build_steps] show the two agree. *)
Inductive Step :=
| Cmd (args : list string) (d : string)
| Default (key value : string).

Definition run_step (s : Step) (logfile : FileObj) : M unit :=
  match s with
  | Cmd args d => run_command args logfile (Some d)
  | Default key value => environ_setdefault key value
  end.

Fixpoint run_steps (steps : list Step) (logfile : FileObj) : M unit :=
  match steps with
  | [] => ret tt
  | s :: rest => run_step s logfile ;; run_steps rest logfile
  end.

(** [sys.exit(main())] with [sys.argv = argv]. *)
Definition script (argv : list string) (w : World) : Z * World :=
  let '(r, w') := main argv w in (exit_status r, finalize w').

End Script.

Arguments World X : clear implicits.

(** ** Running the model *)

Definition silent (_ : Invocation) (x : unit) : Completion * unit :=
  (Exited "" 0, x).


Definition world0 : World unit :=
  {| environ := {[ "TZ" := "Europe/Oslo" ]}; getcwd := "/work"; rand := "k3x9";
     stdout := ""; disk := {[ "run.log" := "old text" ]}; buffers := ∅;
     spawned := []; outside := tt |}.

(** Two command lines, and the options argparse makes of them. *)
Definition fetch_line : list string :=
  ["build.py"; "--logfile"; "run.log"; "fetch"].

Definition fetch_opts : Options := namespace "/work" (Some "run.log") Fetch.

Definition build_line : list string :=
  ["build.py"; "build"; "--no-official"; "--unstripped"].

Definition build_opts : Options :=
  {| dir := "/work"; logfile := None; func := Build; revision := None;
     history := false; official := false; unstripped := true |}.


Definition revision_opts : Options :=
  {| dir := "/work"; logfile := None; func := Fetch;
     revision := Some "branch-heads/6045"; history := false; official := true;
     unstripped := false |}.

Definition usage_exit (_ : list string) : Z := 2.

(** ** Notions the statements use *)

(** The text of the file behind [f] as its handle sees it: what is on disk,
    then the writes still pending in the buffer. *)
Definition file_text {X} (f : FileObj) (w : World X) : string :=
  content (disk w) (name f) +:+ content (buffers w) (name f).

(** Whether [subprocess.run] raised for a child. *)
Definition failed (ic : Invocation * Completion) : bool :=
  match raised_by (inv_args ic.1) ic.2 with
  | Some _ => true
  | None => false
  end.

Definition succeeded (ic : Invocation * Completion) : Prop :=
  raised_by (inv_args ic.1) ic.2 = None.

(** The directory a command's line names: its [cwd], or the process's own. *)
Definition shown_dir (here : string) (i : Invocation) : string :=
  default here (inv_cwd i).

(** What one attempted command leaves in the log file: its line, what the
    child wrote, and the marker if it failed. *)
Definition entry (here : string) (ic : Invocation * Completion) : string :=
  description (inv_args ic.1) (shown_dir here ic.1) +:+ nl
  +:+ child_output ic.2
  +:+ (if failed ic then failure_marker +:+ nl else "").

(** What one attempted command prints. *)
Definition echo (here : string) (ic : Invocation * Completion) : string :=
  description (inv_args ic.1) (shown_dir here ic.1) +:+ nl
  +:+ (if failed ic then failure_marker +:+ nl else "").

(** The pieces of a text, one after the other. *)
Fixpoint cat (pieces : list string) : string :=
  match pieces with
  | [] => ""
  | p :: rest => p +:+ cat rest
  end.

Definition transcript (here : string) (done : list (Invocation * Completion))
  : string :=
  cat (map (entry here) done).

Definition echoes (here : string) (done : list (Invocation * Completion))
  : string :=
  cat (map (echo here) done).


(** The invocations a step list asks for, given the environment it starts
    in. *)
Fixpoint planned (steps : list Step) (env : gmap string string)
  : list Invocation :=
  match steps with
  | [] => []
  | Cmd args d :: rest =>
      {| inv_args := args; inv_cwd := Some d; inv_env := env |}
      :: planned rest env
  | Default key value :: rest => planned rest (setdefault key value env)
  end.

Fixpoint final_env (steps : list Step) (env : gmap string string)
  : gmap string string :=
  match steps with
  | [] => env
  | Cmd _ _ :: rest => final_env rest env
  | Default key value :: rest => final_env rest (setdefault key value env)
  end.

(** [attempts plan done r]: [done] records running [plan] in order, each
    command started only after the one before it succeeded, and nothing
    started after a failure; [r] is how the run ends. *)
Inductive attempts
  : list Invocation -> list (Invocation * Completion) -> result unit -> Prop :=
| attempts_all : attempts [] [] (Returned tt)
| attempts_next i c plan done r :
    raised_by (inv_args i) c = None ->
    attempts plan done r ->
    attempts (i :: plan) ((i, c) :: done) r
| attempts_stop i c e plan :
    raised_by (inv_args i) c = Some e ->
    attempts (i :: plan) [(i, c)] (Raised e).

Definition fetch_steps (opts : Options) : list Step :=
  [ Cmd ["gclient"; "root"] (dir opts);
    Cmd ["gclient"; "config"; "--spec"; GCLIENT_SPEC] (dir opts);
    Cmd (sync_args opts) (dir opts);
    Cmd ["git"; "config"; "diff.ignoreSubmodules"; "dirty"]
      (os_path_join (dir opts) ROOT);
    Default "DEBIAN_FRONTEND" "noninteractive";
    Default "DEBIAN_PRIORITY" "critical";
    Default "DEBCONF_NONINTERACTIVE_SEEN" "true";
    Default "APT_LISTCHANGES_FRONTEND" "none";
    Default "TZ" "Etc/UTC";
    Default "LANG" "C.UTF-8";
    Default "LC_ALL" "C.UTF-8";
    Default "LANGUAGE" "C.UTF-8";
    Cmd ["./build/install-build-deps.sh"] (os_path_join (dir opts) ROOT);
    Cmd ["gclient"; "runhooks"] (dir opts) ].

Definition build_steps (opts : Options) : list Step :=
  [ Cmd (build_args opts) (os_path_join (dir opts) ROOT) ].

Definition steps_of (opts : Options) : list Step :=
  match func opts with
  | Fetch => fetch_steps opts
  | Build => build_steps opts
  end.


(** The defaults [run_fetch] gives the environment, in the order it sets
    them. *)
Definition env_defaults : list (string * string) :=
  [ ("DEBIAN_FRONTEND", "noninteractive");
    ("DEBIAN_PRIORITY", "critical");
    ("DEBCONF_NONINTERACTIVE_SEEN", "true");
    ("APT_LISTCHANGES_FRONTEND", "none");
    ("TZ", "Etc/UTC");
    ("LANG", "C.UTF-8");
    ("LC_ALL", "C.UTF-8");
    ("LANGUAGE", "C.UTF-8") ].

Fixpoint lookup_default (k : string) (l : list (string * string))
  : option string :=
  match l with
  | [] => None
  | (k', v) :: rest => if String.eqb k' k then Some v else lookup_default k rest
  end.

Definition apply_defaults (env : gmap string string) : gmap string string :=
  fold_left (fun e kv => setdefault kv.1 kv.2 e) env_defaults env.

(** The name of the log file [create_logfile] opens. *)
Definition chosen_log {X} (path : option string) (w : World X) : string :=
  match path with
  | Some p => p
  | None => os_path_join (getcwd w) ("build_" +:+ rand w +:+ ".log")
  end.

(** A command line that asks for given options: the global options, the
    subcommand, then only the flags that differ from the defaults. *)
Definition render (o : Options) : list string :=
  ["--dir"; dir o]
  ++ match logfile o with
     | Some l => ["--logfile"; l]
     | None => []
     end
  ++ match func o with
     | Fetch =>
         ["fetch"] ++ (if history o then ["--history"] else [])
         ++ match revision o with
            | Some r => ["--revision"; r]
            | None => []
            end
     | Build =>
         ["build"] ++ (if official o then [] else ["--no-official"])
         ++ (if unstripped o then ["--unstripped"] else [])
     end.

(** The attributes of the subcommand not chosen are at their defaults. *)
Definition own_attributes_only (o : Options) : Prop :=
  match func o with
  | Fetch => official o = true /\ unstripped o = false
  | Build => revision o = None /\ history o = false
  end.

(** The options with each path made a [pathlib.Path]. *)
Definition through_path (Path : string -> string) (o : Options) : Options :=
  {| dir := Path (dir o); logfile := Path <$> logfile o; func := func o;
     revision := revision o; history := history o; official := official o;
     unstripped := unstripped o |}.










(** ** Text and file tables *)

Lemma app_assoc_s (a b c : string) : (a +:+ b) +:+ c = a +:+ (b +:+ c).
Proof.
  induction a as [|ch a IH]; [reflexivity|].
  change (String ch ((a +:+ b) +:+ c) = String ch (a +:+ (b +:+ c))).
  now rewrite IH.
Qed.

Lemma app_nil_r_s (a : string) : a +:+ "" = a.
Proof.
  induction a as [|ch a IH]; [reflexivity|].
  change (String ch (a +:+ "") = String ch a).
  now rewrite IH.
Qed.

Lemma content_insert_eq (m : gmap string string) p v :
  content (<[p := v]> m) p = v.
Proof. unfold content. now rewrite lookup_insert_eq. Qed.

Lemma content_insert_ne (m : gmap string string) p q v :
  p <> q -> content (<[p := v]> m) q = content m q.
Proof. intros H. unfold content. now rewrite lookup_insert_ne. Qed.

Section Facts.

Context {X : Type}.
Variable spawn : Invocation -> X -> Completion * X.
Variable Path : string -> string.
Variable argparse_exit : list string -> Z.

Lemma finalize_content (w : World X) p :
  content (disk (finalize w)) p = content (disk w) p +:+ content (buffers w) p.
Proof.
  unfold content, finalize. simpl. rewrite lookup_union_with.
  destruct (disk w !! p), (buffers w !! p); simpl; try reflexivity.
  now rewrite app_nil_r_s.
Qed.

(** One command, observed. *)
Lemma run_command_obs args f d (w : World X) :
  let i := {| inv_args := args; inv_cwd := Some d; inv_env := environ w |} in
  let c := (spawn i (outside w)).1 in
  let r := (run_command spawn args f (Some d) w).1 in
  let w' := (run_command spawn args f (Some d) w).2 in
  r = match raised_by args c with
      | None => Returned tt
      | Some e => Raised e
      end /\
  spawned w' = spawned w ++ [(i, c)] /\
  outside w' = (spawn i (outside w)).2 /\
  environ w' = environ w /\ getcwd w' = getcwd w /\ rand w' = rand w /\
  stdout w' = stdout w +:+ echo (getcwd w) (i, c) /\
  file_text f w' = file_text f w +:+ entry (getcwd w) (i, c) /\
  (forall p, p <> name f ->
     content (disk w') p = content (disk w) p /\
     content (buffers w') p = content (buffers w) p).
Proof.
  cbv zeta.
  unfold run_command, bind, try_except, log, print, file_write, file_flush,
    environ_copy, subprocess_run, ret, raise, file_text, entry, echo, failed.
  simpl.
  destruct (spawn _ (outside w)) as [c x'] eqn:Hs. simpl.
  destruct (raised_by args c) as [e|] eqn:Hr; simpl;
    rewrite ?content_insert_eq, ?app_assoc_s, ?app_nil_r_s;
    (repeat split; try reflexivity;
     try (apply content_insert_ne; congruence);
     try (rewrite !content_insert_ne by congruence; reflexivity)).
Qed.

Lemma bind_run {A B} (m : M A) (k : A -> M B) (w : World X) :
  bind m k w = match m w with
               | (Returned a, w') => k a w'
               | (Raised e, w') => (Raised e, w')
               end.
Proof. reflexivity. Qed.

(** A step list, observed: what it started, how it ended, and what it left
    in the process state. *)
Lemma run_steps_obs steps f : forall w : World X,
  let r := (run_steps spawn steps f w).1 in
  let w' := (run_steps spawn steps f w).2 in
  exists done,
    attempts (planned steps (environ w)) done r /\
    spawned w' = spawned w ++ done /\
    (r = Returned tt -> environ w' = final_env steps (environ w)) /\
    getcwd w' = getcwd w /\ rand w' = rand w /\
    stdout w' = stdout w +:+ echoes (getcwd w) done /\
    file_text f w' = file_text f w +:+ transcript (getcwd w) done /\
    (forall p, p <> name f ->
       content (disk w') p = content (disk w) p /\
       content (buffers w') p = content (buffers w) p).
Proof.
  induction steps as [|s rest IH]; intros w; cbv zeta.
  - exists []. simpl. unfold transcript, echoes. simpl.
    rewrite !app_nil_r_s, app_nil_r.
    repeat split; auto using attempts_all.
  - simpl run_steps. rewrite bind_run.
    destruct s as [args d | key value].
    + pose proof (run_command_obs args f d w) as H. cbv zeta in H.
      simpl run_step.
      destruct (run_command spawn args f (Some d) w) as [r1 w1].
      simpl in H.
      destruct H as (Hr & Hsp & Hout & Henv & Hcwd & Hrand & Hstd & Htxt & Hoth).
      set (i := {| inv_args := args; inv_cwd := Some d; inv_env := environ w |}) in *.
      set (c := (spawn i (outside w)).1) in *.
      destruct (raised_by args c) as [e|] eqn:Hrb; subst r1.
      * exists [(i, c)]. simpl.
        unfold transcript, echoes. simpl. rewrite !app_nil_r_s.
        repeat split; try assumption; try discriminate.
        -- apply attempts_stop. exact Hrb.
        -- now apply Hoth.
        -- now apply Hoth.
      * specialize (IH w1). cbv zeta in IH.
        destruct IH as (done & Hat & Hsp' & Henv' & Hcwd' & Hrand' & Hstd'
                        & Htxt' & Hoth').
        exists ((i, c) :: done). simpl.
        rewrite Henv in Hat, Henv'. rewrite Hcwd in Hstd', Htxt'.
        repeat split.
        -- apply attempts_next; assumption.
        -- rewrite Hsp', Hsp, <- app_assoc. reflexivity.
        -- exact Henv'.
        -- congruence.
        -- congruence.
        -- rewrite Hstd', Hstd. unfold echoes. simpl.
           now rewrite app_assoc_s.
        -- rewrite Htxt', Htxt. unfold transcript. simpl.
           now rewrite app_assoc_s.
        -- destruct (Hoth' p H) as [-> _]. now apply Hoth.
        -- destruct (Hoth' p H) as [_ ->]. now apply Hoth.
    + simpl run_step. unfold environ_setdefault at 1.
      set (w1 := with_environ (setdefault key value (environ w)) w).
      specialize (IH w1). cbv zeta in IH.
      destruct IH as (done & IH). exists done. simpl. exact IH.
Qed.

(** The two actions are their step lists. *)
Lemma bind_ret_tt (m : M unit) (w : World X) : bind m (fun _ => ret tt) w = m w.
Proof.
  rewrite bind_run. unfold ret. destruct (m w) as [[[]|e] w']; reflexivity.
Qed.

Lemma bind_ext {A B} (m : M A) (k1 k2 : A -> M B) (w : World X) :
  (forall a w', k1 a w' = k2 a w') -> bind m k1 w = bind m k2 w.
Proof.
  intros H. rewrite !bind_run. destruct (m w) as [[a|e] w']; [apply H | reflexivity].
Qed.

Lemma run_fetch_steps opts f (w : World X) :
  run_fetch spawn opts f w = run_steps spawn (fetch_steps opts) f w.
Proof.
  unfold run_fetch, fetch_steps. simpl run_steps. unfold run_step.
  repeat (apply bind_ext; intros _ ?).
  symmetry. apply bind_ret_tt.
Qed.

Lemma run_build_steps opts f (w : World X) :
  run_build spawn opts f w = run_steps spawn (build_steps opts) f w.
Proof.
  unfold run_build, build_steps. simpl run_steps. unfold run_step.
  symmetry. apply bind_ret_tt.
Qed.

(** Opening the log, observed. *)
Lemma create_logfile_obs path (w : World X) :
  let f := {| name := chosen_log path w |} in
  let w' := (create_logfile path w).2 in
  (create_logfile path w).1 = Returned f /\
  stdout w' = stdout w +:+ announcement (name f) +:+ nl /\
  content (disk w') (name f) = "" /\
  content (buffers w') (name f) = announcement (name f) +:+ nl /\
  environ w' = environ w /\ getcwd w' = getcwd w /\ rand w' = rand w /\
  spawned w' = spawned w /\ outside w' = outside w /\
  (forall p, p <> name f ->
     content (disk w') p = content (disk w) p /\
     content (buffers w') p = content (buffers w) p).
Proof.
  cbv zeta.
  destruct path as [p0|];
    unfold create_logfile, chosen_log, bind, log, print, file_write, open_wb,
      NamedTemporaryFile, ret; simpl;
    rewrite ?content_insert_eq;
    (repeat split; try reflexivity;
     rewrite ?content_insert_ne by congruence; reflexivity).
Qed.

Lemma parse_args_run argv (w : World X) :
  parse_args Path argparse_exit argv w =
  (match parse_top Path (tail argv) (Path (getcwd w)) None with
   | Some ns => Returned ns
   | None => Raised (SystemExit (argparse_exit argv))
   end, w).
Proof.
  unfold parse_args, bind, os_getcwd, ret, raise.
  destruct (parse_top _ _ _ _); reflexivity.
Qed.

Lemma parse_args_returned argv opts (w : World X) :
  (parse_args Path argparse_exit argv w).1 = Returned opts ->
  parse_args Path argparse_exit argv w = (Returned opts, w).
Proof.
  rewrite parse_args_run. simpl.
  destruct (parse_top _ _ _ _); intros H; inversion H; reflexivity.
Qed.

(** The whole of [main] once the command line is read. *)
Lemma main_obs argv opts (w : World X) :
  (parse_args Path argparse_exit argv w).1 = Returned opts ->
  let r := (main spawn Path argparse_exit argv w).1 in
  let w' := (main spawn Path argparse_exit argv w).2 in
  let lg := chosen_log (logfile opts) w in
  exists done,
    attempts (planned (steps_of opts) (environ w)) done r /\
    spawned w' = spawned w ++ done /\
    (r = Returned tt -> environ w' = final_env (steps_of opts) (environ w)) /\
    stdout w' = stdout w +:+ announcement lg +:+ nl +:+ echoes (getcwd w) done /\
    file_text {| name := lg |} w'
      = announcement lg +:+ nl +:+ transcript (getcwd w) done /\
    (forall p, p <> lg ->
       content (disk w') p = content (disk w) p /\
       content (buffers w') p = content (buffers w) p).
Proof.
  intros Hp. apply parse_args_returned in Hp. cbv zeta.
  unfold main. rewrite bind_run, Hp, bind_run.
  pose proof (create_logfile_obs (logfile opts) w) as Hc. cbv zeta in Hc.
  destruct (create_logfile (logfile opts) w) as [rf w1]. simpl in Hc.
  destruct Hc as (-> & Hstd & Hdisk & Hbuf & Henv & Hcwd & Hrand & Hsp & Hout
                  & Hoth).
  set (f := {| name := chosen_log (logfile opts) w |}) in *.
  assert (Hrun : (match func opts with
                  | Fetch => run_fetch spawn opts f
                  | Build => run_build spawn opts f
                  end) w1 = run_steps spawn (steps_of opts) f w1).
  { unfold steps_of. destruct (func opts);
      [apply run_fetch_steps | apply run_build_steps]. }
  rewrite Hrun.
  pose proof (run_steps_obs (steps_of opts) f w1) as Hs. cbv zeta in Hs.
  destruct Hs as (done & Hat & Hsp' & Henv' & Hcwd' & Hrand' & Hstd' & Htxt'
                  & Hoth').
  exists done. rewrite Henv in Hat, Henv'. rewrite Hcwd in Hstd', Htxt'.
  repeat split.
  - exact Hat.
  - now rewrite Hsp', Hsp.
  - exact Henv'.
  - now rewrite Hstd', Hstd, !app_assoc_s.
  - fold f. rewrite Htxt'. unfold file_text at 1.
    change (name f) with (chosen_log (logfile opts) w).
    rewrite Hdisk, Hbuf.
    change ("" +:+ announcement (chosen_log (logfile opts) w) +:+ nl)
      with (announcement (chosen_log (logfile opts) w) +:+ nl).
    now rewrite !app_assoc_s.
  - destruct (Hoth' p H) as [-> _]. now apply Hoth.
  - destruct (Hoth' p H) as [_ ->]. now apply Hoth.
Qed.

(** *** What an attempt record says *)

Lemma attempts_prefix plan done r :
  attempts plan done r -> exists rest, plan = map fst done ++ rest.
Proof.
  induction 1 as [| i c plan done r Hok _ [rest ->] | i c e plan Hbad].
  - exists []. reflexivity.
  - exists rest. reflexivity.
  - exists plan. reflexivity.
Qed.

Lemma attempts_returned plan done u :
  attempts plan done (Returned u) ->
  map fst done = plan /\ Forall succeeded done.
Proof.
  intros H. remember (Returned u) as r eqn:Hr.
  induction H as [| i c plan done r Hok H IH | i c e plan Hbad].
  - split; constructor.
  - destruct (IH Hr) as [<- Hall]. split; [reflexivity|].
    constructor; [exact Hok | exact Hall].
  - discriminate.
Qed.

Lemma attempts_raised plan done e :
  attempts plan done (Raised e) ->
  exists before i c,
    done = before ++ [(i, c)] /\ Forall succeeded before /\
    raised_by (inv_args i) c = Some e.
Proof.
  intros H. remember (Raised e) as r eqn:Hr.
  induction H as [| i c plan done r Hok H IH | i c e' plan Hbad].
  - discriminate.
  - destruct (IH Hr) as (before & j & d & -> & Hall & Hj).
    exists ((i, c) :: before), j, d. repeat split; [| exact Hj].
    constructor; [exact Hok | exact Hall].
  - inversion Hr; subst e'. exists [], i, c. repeat split; [constructor | exact Hbad].
Qed.


(** *** Flags on the command line *)











(** *** The commands of the two actions *)

Lemma run_fetch_attempts opts f (w : World X) :
  exists done,
    spawned (run_fetch spawn opts f w).2 = spawned w ++ done /\
    attempts (planned (fetch_steps opts) (environ w)) done
      (run_fetch spawn opts f w).1.
Proof.
  rewrite run_fetch_steps.
  destruct (run_steps_obs (fetch_steps opts) f w) as (done & Hat & Hsp & _).
  exists done. split; assumption.
Qed.

Lemma attempts_in_plan plan done r ic :
  attempts plan done r -> ic ∈ done -> ic.1 ∈ plan.
Proof.
  induction 1 as [| i c plan done r Hok _ IH | i c e plan Hbad]; intros Hin.
  - now apply elem_of_nil in Hin.
  - apply elem_of_cons in Hin as [-> | Hin]; apply elem_of_cons; auto.
  - apply elem_of_cons in Hin as [-> | Hin]; [apply elem_of_cons; auto|].
    now apply elem_of_nil in Hin.
Qed.










(** *** Failure *)

Lemma script_run argv (w : World X) :
  script spawn Path argparse_exit argv w
  = (exit_status (main spawn Path argparse_exit argv w).1,
     finalize (main spawn Path argparse_exit argv w).2).
Proof.
  unfold script. destruct (main spawn Path argparse_exit argv w); reflexivity.
Qed.


(** C2. [run_fetch] plans six commands, with these arguments and working
    directories, in this order; what it starts is recorded by [attempts]: the
    commands in order, each started only when every earlier one succeeded,
    none after a failure. *)
Theorem fetch_order opts f (w : World X) :
  let plan := planned (fetch_steps opts) (environ w) in
  map (fun i => (inv_args i, inv_cwd i)) plan
  = [ (["gclient"; "root"], Some (dir opts));
      (["gclient"; "config"; "--spec"; GCLIENT_SPEC], Some (dir opts));
      (sync_args opts, Some (dir opts));
      (["git"; "config"; "diff.ignoreSubmodules"; "dirty"],
       Some (os_path_join (dir opts) "src"));
      (["./build/install-build-deps.sh"], Some (os_path_join (dir opts) "src"));
      (["gclient"; "runhooks"], Some (dir opts)) ] /\
  sync_args opts
  = ["gclient"; "sync"; "--delete_unversioned_trees"; "--nohooks"]
    ++ (if history opts then [] else ["--no-history"])
    ++ match revision opts with
       | Some x => ["--revision"; "src@" +:+ x]
       | None => []
       end /\
  exists done rest,
    spawned (run_fetch spawn opts f w).2 = spawned w ++ done /\
    attempts plan done (run_fetch spawn opts f w).1 /\
    plan = map fst done ++ rest /\
    (forall before ic later, done = before ++ ic :: later ->
       Forall succeeded before) /\
    (rest <> [] -> exists before ic, done = before ++ [ic] /\ failed ic = true).
Proof.
  cbv zeta. split; [reflexivity|].
  split; [unfold sync_args; destruct (history opts), (revision opts); reflexivity|].
  destruct (run_fetch_attempts opts f w) as (done & Hsp & Hat).
  destruct (attempts_prefix _ _ _ Hat) as [rest Hplan].
  exists done, rest. repeat split; try assumption.
  - intros before ic later ->. clear Hsp Hplan.
    remember (planned (fetch_steps opts) (environ w)) as plan eqn:E. clear E.
    remember (before ++ ic :: later) as done eqn:Hd.
    revert before Hd.
    induction Hat as [| i c plan done r Hok _ IH | i c e plan Hbad];
      intros before Hd.
    + destruct before; discriminate.
    + destruct before as [|b before]; [constructor|].
      inversion Hd; subst. constructor; [exact Hok | now apply IH].
    + destruct before as [|b before]; [constructor|].
      inversion Hd as [[Hb Hnil]]. destruct before; discriminate.
  - intros Hrest.
    destruct (run_fetch spawn opts f w).1 as [[]|e].
    + destruct (attempts_returned _ _ _ Hat) as [Hall _].
      rewrite <- Hall in Hplan at 1.
      rewrite <- (app_nil_r (map fst done)) in Hplan at 1.
      apply app_inv_head in Hplan. congruence.
    + destruct (attempts_raised _ _ _ Hat) as (before & i & c & Hd & _ & He).
      exists before, (i, c). split; [exact Hd|].
      unfold failed. simpl. now rewrite He.
Qed.

(** *** The environment *)

Lemma setdefault_lookup k v (e : gmap string string) j :
  setdefault k v e !! j
  = match e !! j with
    | Some x => Some x
    | None => if String.eqb k j then Some v else None
    end.
Proof.
  unfold setdefault. destruct (String.eqb_spec k j) as [-> | Hne].
  - destruct (e !! j) eqn:Hj; [exact Hj|]. now rewrite lookup_insert_eq.
  - destruct (e !! k) eqn:Hk.
    + destruct (e !! j); reflexivity.
    + rewrite lookup_insert_ne by exact Hne. destruct (e !! j); reflexivity.
Qed.

Lemma fold_defaults_lookup l : forall (e : gmap string string) j,
  fold_left (fun e kv => setdefault kv.1 kv.2 e) l e !! j
  = match e !! j with
    | Some x => Some x
    | None => lookup_default j l
    end.
Proof.
  induction l as [|[k v] l IH]; intros e j; simpl.
  - destruct (e !! j); reflexivity.
  - rewrite IH, setdefault_lookup.
    destruct (e !! j); [reflexivity|]. destruct (String.eqb k j); reflexivity.
Qed.


(** *** The log *)






(** C10. Whatever a file at the [--logfile] path held before, after
    [create_logfile] it is cut to length zero on disk and the handle's file
    holds only the announcement line, which is all the file holds once the
    handle is flushed or the process ends. *)
Theorem logfile_truncated p old (w : World X) :
  let before := with_files (<[p := old]> (disk w)) (buffers w) w in
  let f := {| name := p |} in
  let w' := (create_logfile (Some p) before).2 in
  content (disk before) p = old /\
  (create_logfile (Some p) before).1 = Returned f /\
  content (disk w') p = "" /\
  file_text f w' = announcement p +:+ nl /\
  content (disk (file_flush f w').2) p = announcement p +:+ nl /\
  content (disk (finalize w')) p = announcement p +:+ nl.
Proof.
  cbv zeta.
  set (before := with_files (<[p := old]> (disk w)) (buffers w) w).
  destruct (create_logfile_obs (Some p) before) as (Hr & _ & Hd & Hb & _).
  change (chosen_log (Some p) before) with p in Hr, Hd, Hb.
  change (name {| name := p |}) with p in Hd, Hb.
  split; [apply content_insert_eq|].
  split; [exact Hr|].
  split; [exact Hd|].
  split; [unfold file_text; change (name {| name := p |}) with p;
          now rewrite Hd, Hb|].
  split.
  - unfold file_flush. cbn [fst snd disk with_files name].
    rewrite content_insert_eq. now rewrite Hd, Hb.
  - rewrite finalize_content. now rewrite Hd, Hb.
Qed.


End Facts.

(** ** The theorems at concrete runs *)







(** ** Further properties of the script *)

Section More.

Context {X : Type}.
Variable spawn : Invocation -> X -> Completion * X.
Variable Path : string -> string.
Variable argparse_exit : list string -> Z.

(** X1. [run_command] gives the child the arguments and working directory it
    was called with and the environment as it is at that moment.  The line it
    logs names that directory, or the process's own when it was given none.
    When the child runs, everything logged so far is already on disk, so what
    the child writes follows the command's line; afterwards nothing is
    pending but the failure marker, if the command failed.  The process's
    environment and directory are as before. *)
Theorem command_output_follows_its_line args f cwd (w : World X) :
  let i := {| inv_args := args; inv_cwd := cwd; inv_env := environ w |} in
  let c := (spawn i (outside w)).1 in
  let w' := (run_command spawn args f cwd w).2 in
  (run_command spawn args f cwd w).1
  = match raised_by args c with
    | None => Returned tt
    | Some e => Raised e
    end /\
  spawned w' = spawned w ++ [(i, c)] /\
  content (disk w') (name f)
  = file_text f w +:+ description args (default (getcwd w) cwd) +:+ nl
    +:+ child_output c /\
  content (buffers w') (name f)
  = (if failed (i, c) then failure_marker +:+ nl else "") /\
  environ w' = environ w /\ getcwd w' = getcwd w.
Proof.
  cbv zeta.
  unfold run_command, bind, try_except, log, print, file_write, file_flush,
    environ_copy, subprocess_run, os_getcwd, ret, raise, file_text, failed.
  destruct cwd as [d|]; simpl;
    destruct (spawn _ (outside w)) as [c x'] eqn:Hs; simpl;
    destruct (raised_by args c) as [e|] eqn:Hr; simpl;
    rewrite ?content_insert_eq, ?app_assoc_s, ?app_nil_r_s;
    repeat split; reflexivity.
Qed.





(** *** The environment after an action *)

Lemma run_steps_environ steps f : forall w : World X,
  match (run_steps spawn steps f w).1 with
  | Returned _ =>
      environ (run_steps spawn steps f w).2 = final_env steps (environ w)
  | Raised _ =>
      exists i c,
        last (spawned (run_steps spawn steps f w).2) = Some (i, c) /\
        environ (run_steps spawn steps f w).2 = inv_env i
  end.
Proof.
  induction steps as [|s rest IH]; intros w; [reflexivity|].
  simpl run_steps. rewrite bind_run. destruct s as [args d | key value].
  - pose proof (run_command_obs spawn args f d w) as H. cbv zeta in H.
    simpl run_step.
    destruct (run_command spawn args f (Some d) w) as [r1 w1]. simpl in H.
    destruct H as (Hr & Hsp & _ & Henv & _).
    destruct (raised_by args _) as [e|]; subst r1.
    + simpl. eexists _, _. rewrite Hsp, last_snoc. split; [reflexivity|].
      exact Henv.
    + specialize (IH w1). rewrite Henv in IH. exact IH.
  - simpl run_step. unfold environ_setdefault at 1. apply IH.
Qed.

Lemma main_environ argv opts (w : World X) :
  (parse_args Path argparse_exit argv w).1 = Returned opts ->
  match (main spawn Path argparse_exit argv w).1 with
  | Returned _ =>
      environ (main spawn Path argparse_exit argv w).2
      = final_env (steps_of opts) (environ w)
  | Raised _ =>
      exists i c,
        last (spawned (main spawn Path argparse_exit argv w).2) = Some (i, c) /\
        environ (main spawn Path argparse_exit argv w).2 = inv_env i
  end.
Proof.
  intros Hp. apply parse_args_returned in Hp.
  unfold main. rewrite bind_run, Hp, bind_run.
  pose proof (create_logfile_obs (logfile opts) w) as Hc. cbv zeta in Hc.
  destruct (create_logfile (logfile opts) w) as [rf w1]. simpl in Hc.
  destruct Hc as (-> & _ & _ & _ & Henv & _).
  set (f := {| name := chosen_log (logfile opts) w |}).
  assert (Hrun : (match func opts with
                  | Fetch => run_fetch spawn opts f
                  | Build => run_build spawn opts f
                  end) w1 = run_steps spawn (steps_of opts) f w1).
  { unfold steps_of. destruct (func opts);
      [apply run_fetch_steps | apply run_build_steps]. }
  rewrite Hrun, <- Henv. apply run_steps_environ.
Qed.

(** X4. The environment of the process after an action.  [build] leaves it
    as it was.  [fetch] leaves it as it was when it stops within its first
    four commands, and with the defaults applied once the fifth command was
    started, whether or not that command or the sixth then fails. *)
Theorem environment_after_action argv opts (w : World X) :
  (parse_args Path argparse_exit argv w).1 = Returned opts ->
  let w' := (script spawn Path argparse_exit argv w).2 in
  exists done,
    spawned w' = spawned w ++ done /\
    environ w'
    = match func opts with
      | Build => environ w
      | Fetch =>
          if (length done <=? 4)%nat then environ w
          else apply_defaults (environ w)
      end.
Proof.
  intros Hp. cbv zeta. rewrite script_run. cbn [fst snd].
  destruct (main_obs spawn Path argparse_exit argv opts w Hp)
    as (done & Hat & Hsp & _).
  pose proof (main_environ argv opts w Hp) as He.
  exists done. split; [exact Hsp|].
  change (environ (finalize (main spawn Path argparse_exit argv w).2))
    with (environ (main spawn Path argparse_exit argv w).2).
  destruct (main spawn Path argparse_exit argv w).1 as [[]|e].
  - rewrite He. destruct (attempts_returned _ _ _ Hat) as [Hall _].
    apply (f_equal length) in Hall. rewrite length_map in Hall.
    unfold steps_of in *. destruct (func opts); [|reflexivity].
    simpl in Hall. rewrite Hall. reflexivity.
  - destruct He as (i & c & Hlast & ->).
    destruct (attempts_raised _ _ _ Hat) as (before & i0 & c0 & -> & _ & _).
    rewrite Hsp, app_assoc, last_snoc in Hlast. inversion Hlast; subst i0 c0.
    destruct (attempts_prefix _ _ _ Hat) as [rest Hplan].
    rewrite map_app in Hplan. unfold steps_of in Hplan.
    destruct (func opts); simpl in Hplan.
    + destruct before as [|b1 [|b2 [|b3 [|b4 [|b5 [|b6 more]]]]]];
        simpl in Hplan; inversion Hplan; subst; try reflexivity.
      destruct more; discriminate.
    + destruct before as [|b1 more]; simpl in Hplan; inversion Hplan; subst;
        [reflexivity|].
      destruct more; discriminate.
Qed.

(** *** The defaults *)

Lemma lookup_default_apply (e : gmap string string) k :
  apply_defaults e !! k
  = match e !! k with
    | Some v => Some v
    | None => lookup_default k env_defaults
    end.
Proof. apply fold_defaults_lookup. Qed.

(** X5. Applying the defaults twice is applying them once, and applying them
    changes nothing exactly when the caller had set all eight variables. *)
Theorem defaults_idempotent (e : gmap string string) :
  apply_defaults (apply_defaults e) = apply_defaults e /\
  (apply_defaults e = e <->
   forall k, is_Some (lookup_default k env_defaults) -> is_Some (e !! k)).
Proof.
  split.
  - apply map_eq. intros k. rewrite !lookup_default_apply.
    destruct (e !! k); [reflexivity|].
    destruct (lookup_default k env_defaults); reflexivity.
  - split.
    + intros Heq k [d Hd]. rewrite <- Heq, lookup_default_apply.
      destruct (e !! k); [eauto|]. rewrite Hd. eauto.
    + intros Hall. apply map_eq. intros k. rewrite lookup_default_apply.
      destruct (e !! k) eqn:Hk; [reflexivity|].
      destruct (lookup_default k env_defaults) eqn:Hd; [|reflexivity].
      destruct (Hall k) as [v Hv]; [eauto|]. congruence.
Qed.

(** *** Where the children run *)

(** X6. Every child is started with a non-empty argument list and an explicit
    working directory: [opts.dir] or its [src] subdirectory for [fetch],
    the [src] subdirectory for [build].  None inherits the directory of the
    process. *)
Theorem children_run_in_dir argv opts (w : World X) :
  (parse_args Path argparse_exit argv w).1 = Returned opts ->
  exists done,
    spawned (script spawn Path argparse_exit argv w).2 = spawned w ++ done /\
    forall ic, ic ∈ done ->
      inv_args ic.1 <> [] /\
      match func opts with
      | Fetch =>
          inv_cwd ic.1 = Some (dir opts) \/
          inv_cwd ic.1 = Some (os_path_join (dir opts) "src")
      | Build => inv_cwd ic.1 = Some (os_path_join (dir opts) "src")
      end.
Proof.
  intros Hp. rewrite script_run. cbn [fst snd].
  destruct (main_obs spawn Path argparse_exit argv opts w Hp)
    as (done & Hat & Hsp & _).
  exists done. split; [exact Hsp|]. intros ic Hin.
  pose proof (attempts_in_plan _ _ _ _ Hat Hin) as Hplan.
  unfold steps_of in *. destruct (func opts); simpl in Hplan.
  - repeat (apply elem_of_cons in Hplan as [-> | Hplan]);
      try (split; [discriminate | auto]).
    now apply elem_of_nil in Hplan.
  - apply elem_of_cons in Hplan as [-> | Hplan];
      [|now apply elem_of_nil in Hplan].
    split; [|reflexivity].
    unfold build_args. simpl. discriminate.
Qed.

(** *** The command line *)

(** X7. Reading back a command line written for given options gives those
    options, each path made a [pathlib.Path], provided the directory, the log
    file and the revision do not start with a dash. *)
Theorem parse_render prog o (w : World X) :
  is_value (dir o) = true ->
  (forall l, logfile o = Some l -> is_value l = true) ->
  (forall r, revision o = Some r -> is_value r = true) ->
  own_attributes_only o ->
  parse_args Path argparse_exit (prog :: render o) w
  = (Returned (through_path Path o), w).
Proof.
  intros Hd Hl Hr Hown. rewrite parse_args_run. f_equal.
  destruct o as [d lf fn rev hist off uns].
  unfold own_attributes_only, through_path, render in *. simpl in *.
  rewrite Hd.
  assert (Hsub :
    forall d' lf',
      parse_top Path
        (match fn with
         | Fetch =>
             ["fetch"] ++ (if hist then ["--history"] else [])
             ++ match rev with
                | Some r => ["--revision"; r]
                | None => []
                end
         | Build =>
             ["build"] ++ (if off then [] else ["--no-official"])
             ++ (if uns then ["--unstripped"] else [])
         end) d' lf'
      = Some {| dir := d'; logfile := lf'; func := fn; revision := rev;
                history := hist; official := off; unstripped := uns |}).
  { intros d' lf'. destruct fn.
    - destruct Hown as [-> ->].
      destruct hist, rev as [r|]; simpl; rewrite ?(Hr r eq_refl); reflexivity.
    - destruct Hown as [-> ->]. destruct off, uns; reflexivity. }
  destruct lf as [l|]; simpl.
  - rewrite (Hl l eq_refl), Hsub. reflexivity.
  - rewrite Hsub. reflexivity.
Qed.





(** *** Defaults and where the values come from *)











(** *** The lines of the log *)















End More.

(** ** The further theorems at concrete runs *)



(** A [fetch] whose commands all succeed leaves the defaults in the
    environment. *)
Lemma environment_after_action_witness :
  (parse_args id usage_exit fetch_line world0).1 = Returned fetch_opts /\
  exists done,
    spawned (script silent id usage_exit fetch_line world0).2
    = spawned world0 ++ done /\
    environ (script silent id usage_exit fetch_line world0).2
    = match func fetch_opts with
      | Build => environ world0
      | Fetch =>
          if (length done <=? 4)%nat then environ world0
          else apply_defaults (environ world0)
      end.
Proof.
  split; [reflexivity|].
  exact (environment_after_action silent id usage_exit fetch_line fetch_opts
           world0 eq_refl).
Defined.

(** The directories of a [build]. *)
Lemma children_run_in_dir_witness :
  (parse_args id usage_exit build_line world0).1 = Returned build_opts /\
  exists done,
    spawned (script silent id usage_exit build_line world0).2
    = spawned world0 ++ done /\
    forall ic, ic ∈ done ->
      inv_args ic.1 <> [] /\
      match func build_opts with
      | Fetch =>
          inv_cwd ic.1 = Some (dir build_opts) \/
          inv_cwd ic.1 = Some (os_path_join (dir build_opts) "src")
      | Build => inv_cwd ic.1 = Some (os_path_join (dir build_opts) "src")
      end.
Proof.
  split; [reflexivity|].
  exact (children_run_in_dir silent id usage_exit build_line build_opts world0
           eq_refl).
Defined.

(** The line written for a [fetch] of a revision parses back to it. *)
Lemma parse_render_witness :
  is_value (dir revision_opts) = true /\
  (forall l, logfile revision_opts = Some l -> is_value l = true) /\
  (forall r, revision revision_opts = Some r -> is_value r = true) /\
  own_attributes_only revision_opts /\
  parse_args id usage_exit ("build.py" :: render revision_opts) world0
  = (Returned (through_path id revision_opts), world0).
Proof.
  assert (Hl : forall l, logfile revision_opts = Some l -> is_value l = true)
    by (intros l H; discriminate H).
  assert (Hr : forall r, revision revision_opts = Some r -> is_value r = true)
    by (intros r H; injection H as <-; reflexivity).
  assert (Ho : own_attributes_only revision_opts) by (split; reflexivity).
  split; [reflexivity|]. split; [exact Hl|]. split; [exact Hr|].
  split; [exact Ho|].
  exact (parse_render id usage_exit "build.py" revision_opts world0 eq_refl
           Hl Hr Ho).
Defined.





